(** * SpicyFoodList: arrays in React state, over a small JavaScript heap

    Shallow embedding of the lesson's data modules ([src/data.js] in its two
    versions, [src/unnamed/part_000] with [getNewRandomSpicyFood] and
    [src/unnamed/part_001] with [getNewSpicyFood]), the starter component
    [src/components/SpicyFoodList.js], and the handlers shown in the
    solution steps of [README.md] ([handleAddFood], the two versions of
    [handleLiClick], [handleFilterChange] and [foodsToDisplay]).

    JavaScript objects and arrays are references, and the claims are about
    which arrays are fresh and which elements are the same objects, so the
    model keeps a heap: an object store and an array store, both lists
    indexed by location and extended by allocation.  An array element is a
    JavaScript value: [undefined] or a reference to a food object.  Reading
    [food.id] on [undefined] throws a [TypeError], modelled by [None]. *)

From Stdlib Require Import ZArith String Lia Sorted.
From stdpp Require Import base list.

Open Scope Z_scope.

(** ** Data *)

(** A food object [{ id, name, cuisine, heatLevel }]. *)
Record food := mkFood {
  id : Z;
  name : string;
  cuisine : string;
  heatLevel : Z
}.

(** A value stored in an array slot: [undefined] (what [shift] returns on
    an empty array) or a reference to an object of the object store. *)
Inductive val :=
| VUndef
| VRef (l : nat).

(** The two versions of the data module: the random source keeps the
    module-level counter [nextId]; the pool source keeps the module-level
    array [newSpicyFoods] (a location in the array store). *)
Inductive datamod :=
| DataRandom (nextId : Z)
| DataPool (newSpicyFoods : nat).

(** The world: heap, the component's state variables ([foods] holds the
    location of the array passed to [setFoods], [filterBy] the string of
    [setFilterBy]), the data module, and what [console.log] printed. *)
Record world := mkWorld {
  objs : list food;
  arrs : list (list val);
  foods : nat;
  filterBy : string;
  data : datamod;
  console : list val
}.

(** Contents of the array at location [a] (locations held by the program
    are always allocated; an unallocated one reads as empty). *)
Definition arr (w : world) (a : nat) : list val := default [] (arrs w !! a).

Definition set_heap (w : world) (os : list food) (as_ : list (list val)) : world :=
  mkWorld os as_ (foods w) (filterBy w) (data w) (console w).

Definition set_foods (w : world) (a : nat) : world :=
  mkWorld (objs w) (arrs w) a (filterBy w) (data w) (console w).

Definition set_filterBy (w : world) (s : string) : world :=
  mkWorld (objs w) (arrs w) (foods w) s (data w) (console w).

Definition set_data (w : world) (d : datamod) : world :=
  mkWorld (objs w) (arrs w) (foods w) (filterBy w) d (console w).

Definition log (w : world) (v : val) : world :=
  mkWorld (objs w) (arrs w) (foods w) (filterBy w) (data w) (console w ++ [v]).

(** Object literal / array literal: allocation at the next free location. *)
Definition alloc_obj (w : world) (f : food) : world * val :=
  (set_heap w (objs w ++ [f]) (arrs w), VRef (length (objs w))).

Definition alloc_arr (w : world) (xs : list val) : world * nat :=
  (set_heap w (objs w) (arrs w ++ [xs]), length (arrs w)).

(** Property read [v.id]; [None] is the [TypeError] of reading a property
    of [undefined]. *)
Definition get_food (w : world) (v : val) : option food :=
  match v with
  | VUndef => None
  | VRef l => objs w !! l
  end.

Definition get_id (w : world) (v : val) : option Z :=
  match get_food w v with
  | Some f => Some (id f)
  | None => None
  end.

(** ** The data modules *)

(** [src/unnamed/part_000]: the templates of [newSpicyFoods] (no ids). *)
Definition newSpicyFoods_templates : list (string * string * Z) :=
  [("Green Curry", "Thai", 9); ("Enchiladas", "Mexican", 2);
   ("5 Alarm Chili", "American", 5)]%string.

(** [getNewRandomSpicyFood]: [index] is [Math.floor(Math.random() *
    newSpicyFoods.length)], always below [3]; the copy [{ ...newSpicyFoods[index] }]
    gets [id = nextId] and the counter is incremented. *)
Definition getNewRandomSpicyFood (index : nat) (nextId : Z) (w : world) : world * val :=
  let '(nm, cu, ht) := nth index newSpicyFoods_templates ("Green Curry", "Thai", 9)%string in
  let '(w1, v) := alloc_obj w (mkFood nextId nm cu ht) in
  (set_data w1 (DataRandom (nextId + 1)), v).

(** [getNewSpicyFood] of [src/unnamed/part_001]: [newSpicyFoods.shift()],
    which removes the first element of the module-level array in place and
    returns it, or returns [undefined] when the array is empty. *)
Definition getNewSpicyFood (pool : nat) (w : world) : world * val :=
  match arr w pool with
  | [] => (w, VUndef)
  | x :: rest => (set_heap w (objs w) (<[pool := rest]> (arrs w)), x)
  end.

(** The record source the component imports, per data module version. *)
Definition getNewFood (index : nat) (w : world) : world * val :=
  match data w with
  | DataRandom n => getNewRandomSpicyFood index n w
  | DataPool p => getNewSpicyFood p w
  end.

(** [const spicyFoods = [...]] and the module-level state of each version. *)
Definition BuffaloWings : food := mkFood 1 "Buffalo Wings" "American" 3.
Definition MapoTofu : food := mkFood 2 "Mapo Tofu" "Sichuan" 6.

Definition init_random : world :=
  mkWorld [BuffaloWings; MapoTofu] [[VRef 0; VRef 1]] 0 "All" (DataRandom 3) [].

Definition init_pool : world :=
  mkWorld [BuffaloWings; MapoTofu;
           mkFood 3 "Green Curry" "Thai" 9;
           mkFood 4 "Enchiladas" "Mexican" 2;
           mkFood 5 "5 Alarm Chili" "American" 5]
          [[VRef 0; VRef 1]; [VRef 2; VRef 3; VRef 4]] 0 "All" (DataPool 1) [].

(** ** The component's handlers *)

(** Starter [handleAddFood] of [src/components/SpicyFoodList.js]:
    [const newFood = getNewSpicyFood(); console.log(newFood);].  The starter
    imports [getNewSpicyFood], which only the pool version exports ([None]:
    the import does not resolve). *)
Definition handleAddFood_starter (w : world) : option world :=
  match data w with
  | DataPool p => let '(w1, newFood) := getNewSpicyFood p w in Some (log w1 newFood)
  | DataRandom _ => None
  end.

(** Solution [handleAddFood] of [README.md]:
    [const newFood = getNewFood(); const newFoodArray = [...foods, newFood];
    setFoods(newFoodArray);]. *)
Definition handleAddFood (index : nat) (w : world) : world :=
  let '(w1, newFood) := getNewFood index w in
  let '(w2, newFoodArray) := alloc_arr w1 (arr w1 (foods w1) ++ [newFood]) in
  set_foods w2 newFoodArray.

(** [foods.filter((food) => food.id !== id)]. *)
Fixpoint filter_id_neq (w : world) (i : Z) (xs : list val) : option (list val) :=
  match xs with
  | [] => Some []
  | x :: xs' =>
      match get_id w x with
      | None => None
      | Some k =>
          match filter_id_neq w i xs' with
          | None => None
          | Some ys => Some (if Z.eqb k i then ys else x :: ys)
          end
      end
  end.

(** [handleLiClick] that removes: filter, then [setFoods]. *)
Definition handleLiClick_remove (i : Z) (w : world) : option world :=
  match filter_id_neq w i (arr w (foods w)) with
  | None => None
  | Some newFoodArray =>
      let '(w1, a) := alloc_arr w newFoodArray in Some (set_foods w1 a)
  end.

(** [foods.map((food) => food.id === id ? { ...food, heatLevel:
    food.heatLevel + 1 } : food)]; the object literal is allocated. *)
Fixpoint map_inc_heat (w : world) (i : Z) (xs : list val) : option (world * list val) :=
  match xs with
  | [] => Some (w, [])
  | x :: xs' =>
      match get_food w x with
      | None => None
      | Some f =>
          if Z.eqb (id f) i then
            let '(w1, v) := alloc_obj w (mkFood (id f) (name f) (cuisine f) (heatLevel f + 1)) in
            match map_inc_heat w1 i xs' with
            | None => None
            | Some (w2, ys) => Some (w2, v :: ys)
            end
          else
            match map_inc_heat w i xs' with
            | None => None
            | Some (w2, ys) => Some (w2, x :: ys)
            end
      end
  end.

(** [handleLiClick] that updates: map, then [setFoods]. *)
Definition handleLiClick_update (i : Z) (w : world) : option world :=
  match map_inc_heat w i (arr w (foods w)) with
  | None => None
  | Some (w1, newFoodArray) =>
      let '(w2, a) := alloc_arr w1 newFoodArray in Some (set_foods w2 a)
  end.

(** [handleFilterChange]: [setFilterBy(event.target.value)]. *)
Definition handleFilterChange (value : string) (w : world) : world :=
  set_filterBy w value.

(** [foods.filter((food) => filterBy === "All" ? true : food.cuisine === filterBy)]:
    with ["All"] the callback does not read [food]. *)
Fixpoint filter_cuisine (w : world) (fb : string) (xs : list val) : option (list val) :=
  match xs with
  | [] => Some []
  | x :: xs' =>
      let keep :=
        if String.eqb fb "All" then Some true
        else match get_food w x with
             | None => None
             | Some f => Some (String.eqb (cuisine f) fb)
             end in
      match keep with
      | None => None
      | Some b =>
          match filter_cuisine w fb xs' with
          | None => None
          | Some ys => Some (if b then x :: ys else ys)
          end
      end
  end.

Definition foodsToDisplay (w : world) : option (list val) :=
  filter_cuisine w (filterBy w) (arr w (foods w)).

(** [foodsToDisplay.map((food) => <li key={food.id}>{food.name} | Heat:
    {food.heatLevel} | Cuisine: {food.cuisine}</li>)]: the rendered rows. *)
Fixpoint render_rows (w : world) (xs : list val) : option (list (Z * string * Z * string)) :=
  match xs with
  | [] => Some []
  | x :: xs' =>
      match get_food w x with
      | None => None
      | Some f =>
          match render_rows w xs' with
          | None => None
          | Some rs => Some ((id f, name f, heatLevel f, cuisine f) :: rs)
          end
      end
  end.

Definition render (w : world) : option (list (Z * string * Z * string)) :=
  match foodsToDisplay w with
  | None => None
  | Some xs => render_rows w xs
  end.

(** ** User events and runs *)

Inductive event :=
| AddFood (index : nat)
| ClickRemove (i : Z)
| ClickUpdate (i : Z)
| FilterChange (value : string).

Definition handle (e : event) (w : world) : option world :=
  match e with
  | AddFood index => Some (handleAddFood index w)
  | ClickRemove i => handleLiClick_remove i w
  | ClickUpdate i => handleLiClick_update i w
  | FilterChange s => Some (handleFilterChange s w)
  end.

(** A handler that throws leaves the state as it was. *)
Fixpoint run (es : list event) (w : world) : world :=
  match es with
  | [] => w
  | e :: es' => run es' (default w (handle e w))
  end.

(** Ids of the food objects referenced by an array ([undefined] has none). *)
Fixpoint record_ids (w : world) (xs : list val) : list Z :=
  match xs with
  | [] => []
  | x :: xs' =>
      match get_id w x with
      | Some k => k :: record_ids w xs'
      | None => record_ids w xs'
      end
  end.

Definition ids_unique (w : world) : Prop := NoDup (record_ids w (arr w (foods w))).

(** The foods as values: the objects the current [foods] array refers to. *)
Definition foods_values (w : world) : list (option food) :=
  map (get_food w) (arr w (foods w)).

(** The spec's scenario on the pool version. *)
Example scenario_pool :
  let w := run [AddFood 0; ClickRemove 1; ClickUpdate 2; FilterChange "Thai"] init_pool in
  render w = Some [(3, "Green Curry", 9, "Thai")]%string /\
  foods_values w = [Some (mkFood 2 "Mapo Tofu" "Sichuan" 7);
                    Some (mkFood 3 "Green Curry" "Thai" 9)]%string.
Proof. vm_compute. split; reflexivity. Qed.

Example scenario_random :
  foods_values (run [AddFood 2; AddFood 2] init_random) =
  [Some BuffaloWings; Some MapoTofu; Some (mkFood 3 "5 Alarm Chili" "American" 5);
   Some (mkFood 4 "5 Alarm Chili" "American" 5)]%string.
Proof. reflexivity. Qed.

Global Instance val_eq_dec : EqDecision val.
Proof. solve_decision. Defined.

(** A collection in the spec's sense: every slot refers to a food object. *)
Definition is_record (w : world) (v : val) : Prop := get_food w v <> None.

(** ** Heap lemmas *)

Section Heap.

Lemma arr_alloc_arr_old (w : world) (xs : list val) (a : nat) :
  (a < length (arrs w))%nat -> arr (fst (alloc_arr w xs)) a = arr w a.
Proof. intros Ha. unfold arr; simpl. by rewrite lookup_app_l. Qed.

Lemma arr_alloc_arr_new (w : world) (xs : list val) :
  arr (fst (alloc_arr w xs)) (snd (alloc_arr w xs)) = xs.
Proof. unfold arr; simpl. by rewrite list_lookup_middle. Qed.

Lemma arr_push os as_ xs f fb d c :
  arr (mkWorld os (as_ ++ [xs]) f fb d c) (length as_) = xs.
Proof. unfold arr; simpl. by rewrite list_lookup_middle. Qed.

Lemma arr_push_old os as_ xs f fb d c (a : nat) :
  (a < length as_)%nat -> arr (mkWorld os (as_ ++ [xs]) f fb d c) a = default [] (as_ !! a).
Proof. intros Ha. unfold arr; simpl. by rewrite lookup_app_l. Qed.

Lemma get_food_alloc_obj (w : world) (f : food) (v : val) :
  is_record w v -> get_food (fst (alloc_obj w f)) v = get_food w v.
Proof.
  unfold is_record; destruct v as [|l]; simpl; [done|].
  intros Hl. apply lookup_app_l. apply lookup_lt_is_Some_1.
  by destruct (objs w !! l).
Qed.

Lemma get_food_alloc_obj_new (w : world) (f : food) :
  get_food (fst (alloc_obj w f)) (snd (alloc_obj w f)) = Some f.
Proof. simpl. by rewrite list_lookup_middle. Qed.

Lemma is_record_alloc_obj (w : world) (f : food) (v : val) :
  is_record w v -> is_record (fst (alloc_obj w f)) v.
Proof. intros H. unfold is_record. by rewrite get_food_alloc_obj. Qed.

End Heap.

(** ** Removal by filter *)

Section Remove.

Variable w : world.
Variable i : Z.

Lemma filter_id_neq_Some (xs : list val) :
  Forall (is_record w) xs ->
  exists ys, filter_id_neq w i xs = Some ys /\
    Forall (fun v => get_id w v <> Some i) ys /\
    ys `sublist_of` xs /\
    (forall v, get_id w v <> Some i -> count_occ val_eq_dec ys v = count_occ val_eq_dec xs v).
Proof.
  induction 1 as [|x xs Hx Hxs IH]; simpl.
  - exists []. split; [done|]. split; [constructor|]. split; [constructor|]. done.
  - destruct IH as (ys & Hys & Hne & Hsub & Hcnt).
    unfold get_id at 1. destruct (get_food w x) as [f|] eqn:Hf; [|done].
    rewrite Hys. destruct (Z.eqb_spec (id f) i) as [Hi|Hi].
    + exists ys. repeat split; auto.
      * by constructor.
      * intros v Hv. rewrite Hcnt by done. simpl.
        destruct (val_eq_dec x v) as [->|]; [|done].
        exfalso. apply Hv. unfold get_id. by rewrite Hf, Hi.
    + exists (x :: ys). repeat split.
      * constructor; [|done]. unfold get_id. rewrite Hf. congruence.
      * by constructor.
      * intros v Hv. simpl. rewrite Hcnt by done. done.
Qed.

(** Every slot whose id differs from [i] passes the filter. *)
Lemma filter_id_neq_keeps (xs ys : list val) :
  filter_id_neq w i xs = Some ys -> ys `sublist_of` xs.
Proof.
  revert ys. induction xs as [|x xs IH]; simpl; intros ys H.
  - by injection H as <-.
  - destruct (get_id w x) as [k|]; [|done].
    destruct (filter_id_neq w i xs) as [zs|]; [|done].
    injection H as <-. destruct (Z.eqb k i).
    + constructor. by apply IH.
    + constructor. by apply IH.
Qed.

End Remove.

(** The array the [foods] state variable currently holds. *)
Definition collection (w : world) : list val := arr w (foods w).

Section Frames.

Lemma get_food_same_objs (w1 w2 : world) (v : val) :
  objs w1 = objs w2 -> get_food w1 v = get_food w2 v.
Proof. intros H. destruct v; simpl; congruence. Qed.

Lemma get_id_same_objs (w1 w2 : world) (v : val) :
  objs w1 = objs w2 -> get_id w1 v = get_id w2 v.
Proof. intros H. unfold get_id. by rewrite (get_food_same_objs w1 w2). Qed.

Lemma filter_id_neq_same_objs (w1 w2 : world) (i : Z) (xs : list val) :
  objs w1 = objs w2 -> filter_id_neq w1 i xs = filter_id_neq w2 i xs.
Proof.
  intros H. induction xs as [|x xs IH]; simpl; [done|].
  by rewrite IH, (get_id_same_objs w1 w2).
Qed.

(** A filter result passes the same filter unchanged. *)
Lemma filter_id_neq_idem (w : world) (i : Z) (xs ys : list val) :
  filter_id_neq w i xs = Some ys -> filter_id_neq w i ys = Some ys.
Proof.
  revert ys. induction xs as [|x xs IH]; simpl; intros ys H.
  - by injection H as <-.
  - destruct (get_id w x) as [k|] eqn:Hk; [|done].
    destruct (filter_id_neq w i xs) as [zs|]; [|done].
    injection H as <-. specialize (IH zs eq_refl).
    destruct (Z.eqb_spec k i); [done|]. simpl. rewrite Hk, IH.
    by destruct (Z.eqb_spec k i).
Qed.

(** When no slot has id [i], the filter keeps every slot. *)
Lemma filter_id_neq_none_match (w : world) (i : Z) (xs : list val) :
  Forall (is_record w) xs -> Forall (fun v => get_id w v <> Some i) xs ->
  filter_id_neq w i xs = Some xs.
Proof.
  induction 1 as [|x xs Hx Hxs IH]; simpl; intros Hn; [done|].
  inversion Hn as [|? ? Hxi Hn']; subst.
  unfold is_record in Hx. unfold get_id in *.
  destruct (get_food w x) as [f|]; [|done].
  rewrite IH by done. destruct (Z.eqb_spec (id f) i); congruence.
Qed.

Lemma handleLiClick_remove_objs (i : Z) (w w' : world) :
  handleLiClick_remove i w = Some w' -> objs w' = objs w.
Proof.
  unfold handleLiClick_remove. destruct (filter_id_neq _ _ _); [|done].
  intros H. by injection H as <-.
Qed.

Lemma handleLiClick_remove_collection (i : Z) (w w' : world) :
  handleLiClick_remove i w = Some w' ->
  filter_id_neq w i (collection w) = Some (collection w').
Proof.
  unfold handleLiClick_remove, collection.
  destruct (filter_id_neq _ _ _) as [ys|]; [|done].
  intros H. injection H as <-. unfold set_foods, set_heap; simpl.
  by rewrite arr_push.
Qed.

End Frames.

(** [C2]: for every collection [C] (every slot a food object) and id [i],
    [handleLiClick] with [foods.filter((food) => food.id !== id)] succeeds and
    the new collection has no element with id [i], is a subsequence of [C]
    (original relative order), and keeps every element whose id differs from
    [i] (the same references, as many times as in [C]); the objects are not
    touched, so those elements keep their values. *)
Theorem remove_spec (i : Z) (w : world) :
  Forall (is_record w) (collection w) ->
  exists w', handleLiClick_remove i w = Some w' /\
    objs w' = objs w /\
    Forall (fun v => get_id w' v <> Some i) (collection w') /\
    collection w' `sublist_of` collection w /\
    (forall v, get_id w v <> Some i ->
       count_occ val_eq_dec (collection w') v = count_occ val_eq_dec (collection w) v).
Proof.
  intros Hc.
  destruct (filter_id_neq_Some w i (collection w) Hc) as (ys & Hys & Hne & Hsub & Hcnt).
  unfold handleLiClick_remove. unfold collection in Hys. rewrite Hys.
  eexists. split; [reflexivity|].
  unfold collection, set_foods, set_heap; simpl.
  rewrite arr_push.
  split; [done|]. split; [|done].
  eapply Forall_impl; [exact Hne|]. intros v Hv.
  by rewrite (get_id_same_objs _ w).
Qed.

Lemma remove_spec_witness :
  Forall (is_record init_pool) (collection init_pool) /\
  exists w', handleLiClick_remove 1 init_pool = Some w' /\
    objs w' = objs init_pool /\
    Forall (fun v => get_id w' v <> Some 1) (collection w') /\
    collection w' `sublist_of` collection init_pool /\
    (forall v, get_id init_pool v <> Some 1 ->
       count_occ val_eq_dec (collection w') v = count_occ val_eq_dec (collection init_pool) v).
Proof.
  assert (H : Forall (is_record init_pool) (collection init_pool)).
  { repeat constructor; unfold is_record; simpl; discriminate. }
  split; [exact H|]. exact (remove_spec 1 init_pool H).
Defined.

(** [C6]: for every collection [C] (every slot a food object) and id [i]
    that no element of [C] has (such as [999]), [handleLiClick] with the
    filter succeeds (no error) and the new collection equals [C] element
    for element, over the same objects. *)
Theorem remove_missing_noop (i : Z) (w : world) :
  Forall (is_record w) (collection w) ->
  Forall (fun v => get_id w v <> Some i) (collection w) ->
  exists w', handleLiClick_remove i w = Some w' /\
    collection w' = collection w /\ objs w' = objs w.
Proof.
  intros Hc Hn. unfold handleLiClick_remove.
  unfold collection in Hc, Hn.
  rewrite (filter_id_neq_none_match w i _ Hc Hn).
  eexists. split; [reflexivity|].
  unfold collection, set_foods, set_heap; simpl. by rewrite arr_push.
Qed.

Lemma remove_missing_noop_witness :
  exists w', handleLiClick_remove 999 init_pool = Some w' /\
    collection w' = collection init_pool /\ objs w' = objs init_pool.
Proof.
  apply remove_missing_noop.
  - repeat constructor; unfold is_record; simpl; discriminate.
  - repeat constructor; simpl; discriminate.
Defined.

(** [C7]: removal is idempotent: removing [i] from the result of removing
    [i] gives the same collection (and when the first removal throws, there
    is no result on either side). *)
Theorem remove_idempotent (i : Z) (w : world) :
  collection <$> (handleLiClick_remove i w ≫= handleLiClick_remove i) =
  collection <$> handleLiClick_remove i w.
Proof.
  destruct (handleLiClick_remove i w) as [w1|] eqn:H1; simpl; [|done].
  pose proof (handleLiClick_remove_collection i w w1 H1) as Hc.
  pose proof (handleLiClick_remove_objs i w w1 H1) as Ho.
  apply filter_id_neq_idem in Hc.
  rewrite (filter_id_neq_same_objs w w1 i _ (eq_sym Ho)) in Hc.
  unfold handleLiClick_remove. unfold collection in Hc at 1. rewrite Hc.
  simpl. f_equal. unfold collection, set_foods, set_heap; simpl.
  by rewrite arr_push.
Qed.

Lemma filter_cuisine_All (w : world) (xs : list val) :
  filter_cuisine w "All" xs = Some xs.
Proof. induction xs as [|x xs IH]; simpl; [done|]. by rewrite IH. Qed.

(** [C8]: after [setFilterBy("All")], [foodsToDisplay] is the whole
    collection, every element in its original order. *)
Theorem filter_all_roundtrip (w : world) :
  foodsToDisplay (handleFilterChange "All" w) = Some (collection w).
Proof. unfold foodsToDisplay. simpl. apply filter_cuisine_All. Qed.

(** ** Update by map *)

(** The spec's transform of the lesson: [{ ...food, heatLevel: food.heatLevel + 1 }]. *)
Definition inc_heat (f : food) : food :=
  mkFood (id f) (name f) (cuisine f) (heatLevel f + 1).

(** How one slot of the new array relates to the slot of the old one: the
    matching element is an object equal to [inc_heat] of the old one, every
    other element is the very same reference, still denoting the same object. *)
Definition update_slot (w w' : world) (i : Z) (v v' : val) : Prop :=
  exists f, get_food w v = Some f /\
    if Z.eqb (id f) i then get_food w' v' = Some (inc_heat f)
    else v' = v /\ get_food w' v' = Some f.

Section Update.

Lemma get_food_prefix (w w' : world) (v : val) (f : food) :
  objs w `prefix_of` objs w' -> get_food w v = Some f -> get_food w' v = Some f.
Proof.
  intros Hp. destruct v as [|l]; simpl; [done|].
  intros Hl. by eapply prefix_lookup_Some.
Qed.

Lemma update_slot_prefix (w w1 w2 : world) (i : Z) (v v' : val) :
  objs w1 `prefix_of` objs w2 -> update_slot w w1 i v v' -> update_slot w w2 i v v'.
Proof.
  intros Hp (f & Hf & Hs). exists f. split; [done|].
  destruct (Z.eqb (id f) i).
  - by eapply get_food_prefix.
  - destruct Hs as [-> Hs]. split; [done|]. by eapply get_food_prefix.
Qed.

Lemma map_inc_heat_Some (i : Z) (xs : list val) :
  forall w, Forall (is_record w) xs ->
  exists w1 ys, map_inc_heat w i xs = Some (w1, ys) /\
    objs w `prefix_of` objs w1 /\ arrs w1 = arrs w /\ foods w1 = foods w /\
    Forall2 (update_slot w w1 i) xs ys.
Proof.
  induction xs as [|x xs IH]; intros w Hxs; simpl.
  - exists w, []. repeat split; try done; constructor.
  - inversion Hxs as [|? ? Hx Hxs']; subst.
    unfold is_record in Hx. destruct (get_food w x) as [f|] eqn:Hf; [|done].
    destruct (Z.eqb (id f) i) eqn:Hi.
    + set (wa := fst (alloc_obj w (inc_heat f))).
      assert (Hpa : objs w `prefix_of` objs wa).
      { unfold wa; simpl. by apply prefix_app_r. }
      assert (Hxs_a : Forall (is_record wa) xs).
      { eapply Forall_impl; [exact Hxs'|]. intros v Hv. by apply is_record_alloc_obj. }
      destruct (IH wa Hxs_a) as (w1 & ys & Hm & Hp & Ha & Hfo & Hr).
      unfold wa in Hm; simpl in Hm. unfold inc_heat in Hm. rewrite Hm.
      eexists w1, _. split; [reflexivity|].
      split; [by etrans|]. split; [done|]. split; [done|].
      constructor.
      * exists f. split; [done|]. rewrite Hi.
        apply (get_food_prefix wa); [done|]. unfold wa. apply get_food_alloc_obj_new.
      * clear -Hxs' Hr. induction Hr as [|v v' vs vs' Hs _ IHr]; [constructor|].
        inversion Hxs' as [|? ? Hv Hvs]; subst. constructor; [|by apply IHr].
        destruct Hs as (g & Hg & Hs). exists g. split; [|done].
        rewrite <- Hg. unfold wa. symmetry. by apply get_food_alloc_obj.
    + destruct (IH w Hxs') as (w1 & ys & Hm & Hp & Ha & Hfo & Hr).
      rewrite Hm. exists w1, (x :: ys). split; [done|].
      split; [done|]. split; [done|]. split; [done|].
      constructor; [|done].
      exists f. split; [done|]. rewrite Hi. split; [done|].
      by eapply get_food_prefix.
Qed.

End Update.

(** [C3]: for every collection [C] (every slot a food object) and id [i],
    [handleLiClick] with [foods.map(...)] succeeds; the new collection has
    the length of [C]; slot by slot, an element with id [i] is replaced by an
    object equal to [inc_heat] of the old element (same id, heat level plus
    one), and every other element is the identical reference to the same,
    unchanged, object. No existing object is modified. *)
Theorem update_spec (i : Z) (w : world) :
  Forall (is_record w) (collection w) ->
  exists w', handleLiClick_update i w = Some w' /\
    length (collection w') = length (collection w) /\
    objs w `prefix_of` objs w' /\
    Forall2 (update_slot w w' i) (collection w) (collection w').
Proof.
  intros Hc.
  destruct (map_inc_heat_Some i (collection w) w Hc) as (w1 & ys & Hm & Hp & Ha & Hfo & Hr).
  unfold handleLiClick_update. unfold collection in Hm. rewrite Hm.
  eexists. split; [reflexivity|].
  unfold collection, set_foods, set_heap; simpl. rewrite Ha, arr_push.
  split; [symmetry; by eapply Forall2_length|]. split; [done|].
  eapply Forall2_impl; [exact Hr|]. intros v v' Hs.
  eapply update_slot_prefix; [|exact Hs]. simpl. done.
Qed.

Lemma update_spec_witness :
  exists w', handleLiClick_update 2 init_pool = Some w' /\
    length (collection w') = length (collection init_pool) /\
    objs init_pool `prefix_of` objs w' /\
    Forall2 (update_slot init_pool w' 2) (collection init_pool) (collection w').
Proof.
  apply update_spec.
  repeat constructor; unfold is_record; simpl; discriminate.
Defined.

(** ** Adding *)

(** The pool of the pool version is a different array from the [foods]
    state ([newSpicyFoods] and [spicyFoods] are two module-level arrays). *)
Definition no_alias (w : world) : Prop :=
  match data w with
  | DataPool p => p <> foods w
  | DataRandom _ => True
  end.

Section Add.

Lemma getNewFood_frame (index : nat) (w w1 : world) (r : val) :
  getNewFood index w = (w1, r) ->
  foods w1 = foods w /\ objs w `prefix_of` objs w1 /\
  (forall a, (match data w with DataPool p => a <> p | DataRandom _ => True end) ->
     arr w1 a = arr w a) /\
  length (arrs w1) = length (arrs w).
Proof.
  unfold getNewFood. destruct (data w) as [n|p].
  - unfold getNewRandomSpicyFood.
    destruct (nth index newSpicyFoods_templates _) as [[nm cu] ht].
    simpl. intros H. injection H as <- <-. simpl.
    split; [done|]. split; [by apply prefix_app_r|]. done.
  - unfold getNewSpicyFood. destruct (arr w p) as [|x rest] eqn:Hp.
    + intros H. injection H as <- <-. done.
    + intros H. injection H as <- <-. simpl.
      split; [done|]. split; [done|]. split; [|by rewrite length_insert].
      intros a Ha. unfold arr; simpl. by rewrite list_lookup_insert_ne.
Qed.

Lemma collection_getNewFood (index : nat) (w w1 : world) (r : val) :
  no_alias w -> getNewFood index w = (w1, r) ->
  foods w1 = foods w /\ collection w1 = collection w.
Proof.
  intros Hna H. destruct (getNewFood_frame index w w1 r H) as (Hf & _ & Ha & _).
  split; [done|]. unfold collection. rewrite Hf. apply Ha.
  unfold no_alias in Hna. destruct (data w); congruence.
Qed.

Lemma handleAddFood_unfold (index : nat) (w w1 : world) (r : val) :
  getNewFood index w = (w1, r) ->
  handleAddFood index w =
  set_foods (set_heap w1 (objs w1) (arrs w1 ++ [arr w1 (foods w1) ++ [r]])) (length (arrs w1)).
Proof. intros H. unfold handleAddFood. by rewrite H. Qed.

End Add.

(** [C1]: clicking "Add New Food" runs [handleAddFood]: the record [r]
    supplied by the source is appended, [[...foods, newFood]], giving a
    collection of length [len(C) + 1] whose last element is [r] and whose
    first [len(C)] elements are [C]; the new array is published through
    [setFoods] as the [foods] state. *)
Theorem add_spec (index : nat) (w w1 : world) (r : val) :
  no_alias w -> getNewFood index w = (w1, r) ->
  let w' := handleAddFood index w in
  collection w' = collection w ++ [r] /\
  length (collection w') = S (length (collection w)) /\
  last (collection w') = Some r /\
  take (length (collection w)) (collection w') = collection w /\
  foods w' = length (arrs w1).
Proof.
  intros Hna Hg. destruct (collection_getNewFood index w w1 r Hna Hg) as [Hf Hc].
  simpl. rewrite (handleAddFood_unfold index w w1 r Hg).
  assert (E : collection (set_foods (set_heap w1 (objs w1)
             (arrs w1 ++ [arr w1 (foods w1) ++ [r]])) (length (arrs w1)))
           = collection w ++ [r]).
  { unfold collection, set_foods, set_heap; simpl. rewrite arr_push.
    unfold collection in Hc. by rewrite Hc. }
  rewrite E. split; [done|]. split; [rewrite length_app; simpl; lia|].
  split; [apply last_snoc|]. split; [by rewrite take_app_length|].
  done.
Qed.

Lemma add_spec_witness :
  no_alias init_pool /\ getNewFood 0 init_pool = (fst (getNewFood 0 init_pool), VRef 2) /\
  let w' := handleAddFood 0 init_pool in
  collection w' = collection init_pool ++ [VRef 2] /\
  length (collection w') = S (length (collection init_pool)) /\
  last (collection w') = Some (VRef 2) /\
  take (length (collection init_pool)) (collection w') = collection init_pool /\
  foods w' = length (arrs (fst (getNewFood 0 init_pool))).
Proof.
  assert (Hna : no_alias init_pool) by (unfold no_alias; simpl; lia).
  assert (Hg : getNewFood 0 init_pool = (fst (getNewFood 0 init_pool), VRef 2)) by reflexivity.
  split; [exact Hna|]. split; [exact Hg|].
  exact (add_spec 0 init_pool _ (VRef 2) Hna Hg).
Defined.

(** ** Copy on write *)

(** What a handler may change: objects are only added, every array that
    existed before keeps its contents (the pool of [getNewSpicyFood] apart),
    in particular the array that was the collection, and the new [foods]
    state is a freshly allocated array. *)
Definition frame (w w' : world) : Prop :=
  objs w `prefix_of` objs w' /\
  (forall a, (a < length (arrs w))%nat -> data w <> DataPool a -> arr w' a = arr w a) /\
  arr w' (foods w) = collection w /\
  (length (arrs w) <= foods w' < length (arrs w'))%nat.

Section Frame.

Variable w : world.
Hypothesis Hfoods : (foods w < length (arrs w))%nat.
Hypothesis Hna : no_alias w.

Lemma map_inc_heat_frame (i : Z) (xs : list val) :
  forall w0 w1 ys, map_inc_heat w0 i xs = Some (w1, ys) ->
  objs w0 `prefix_of` objs w1 /\ arrs w1 = arrs w0.
Proof.
  induction xs as [|x xs IH]; intros w0 w1 ys; simpl.
  - intros H. by injection H as <- _.
  - destruct (get_food w0 x) as [f|]; [|done].
    destruct (Z.eqb (id f) i).
    + simpl. destruct (map_inc_heat _ i xs) as [[w2 zs]|] eqn:Hm; [|done].
      intros H. injection H as <- _. apply IH in Hm as [Hp Ha].
      simpl in Hp, Ha. split; [|done]. etrans; [|exact Hp]. by apply prefix_app_r.
    + destruct (map_inc_heat w0 i xs) as [[w2 zs]|] eqn:Hm; [|done].
      intros H. injection H as <- _. by apply IH in Hm.
Qed.

Lemma frame_push (w1 : world) (xs : list val) :
  objs w `prefix_of` objs w1 ->
  (forall a, data w <> DataPool a -> arr w1 a = arr w a) ->
  length (arrs w1) = length (arrs w) ->
  frame w (set_foods (set_heap w1 (objs w1) (arrs w1 ++ [xs])) (length (arrs w1))).
Proof.
  intros Hp Ha Hl. unfold frame, set_foods, set_heap, collection; simpl.
  assert (Hold : forall a, (a < length (arrs w))%nat -> data w <> DataPool a ->
            arr (mkWorld (objs w1) (arrs w1 ++ [xs]) (length (arrs w1))
                   (filterBy w1) (data w1) (console w1)) a = arr w a).
  { intros a Hlt Hd. rewrite arr_push_old by lia. by apply Ha. }
  split; [done|]. split; [done|]. split.
  - apply Hold; [done|]. unfold no_alias in Hna. destruct (data w); congruence.
  - rewrite length_app. simpl. lia.
Qed.

End Frame.

(** [C4]: none of the three handlers mutates the array it reads: adding
    ([[...foods, newFood]]), removing ([foods.filter]) and updating
    ([foods.map]) all publish a freshly allocated array, leave every array
    that existed before with its contents (the source's own pool apart),
    in particular the previous collection, and modify no object. *)
Theorem handlers_copy_on_write (w : world) :
  (foods w < length (arrs w))%nat -> no_alias w ->
  (forall index, frame w (handleAddFood index w)) /\
  (forall i w', handleLiClick_remove i w = Some w' -> frame w w') /\
  (forall i w', handleLiClick_update i w = Some w' -> frame w w').
Proof.
  intros Hf Hna. split; [|split].
  - intros index. destruct (getNewFood index w) as [w1 r] eqn:Hg.
    rewrite (handleAddFood_unfold index w w1 r Hg).
    destruct (getNewFood_frame index w w1 r Hg) as (_ & Hp & Ha & Hl).
    apply frame_push; try done.
    intros a Hd. apply Ha. destruct (data w); [done|congruence].
  - intros i w'. unfold handleLiClick_remove.
    destruct (filter_id_neq _ _ _) as [ys|]; [|done].
    intros H. injection H as <-. by apply frame_push.
  - intros i w'. unfold handleLiClick_update.
    destruct (map_inc_heat w i (arr w (foods w))) as [[w1 ys]|] eqn:Hm; [|done].
    intros H. injection H as <-.
    destruct (map_inc_heat_frame i _ w w1 ys Hm) as [Hp Ha].
    apply frame_push; try done.
    + intros a _. unfold arr. by rewrite Ha.
    + by rewrite Ha.
Qed.

Lemma handlers_copy_on_write_witness :
  (forall index, frame init_pool (handleAddFood index init_pool)) /\
  (forall i w', handleLiClick_remove i init_pool = Some w' -> frame init_pool w') /\
  (forall i w', handleLiClick_update i init_pool = Some w' -> frame init_pool w').
Proof.
  apply handlers_copy_on_write.
  - simpl. lia.
  - unfold no_alias. simpl. lia.
Defined.

(** ** Id uniqueness along runs *)

(** A slot holds [undefined] or a reference to an allocated object. *)
Definition wf_slot (w : world) (v : val) : Prop :=
  match v with
  | VUndef => True
  | VRef l => (l < length (objs w))%nat
  end.

(** The records the source still holds (the pool version's array). *)
Definition pool_slots (w : world) : list val :=
  match data w with
  | DataPool p => arr w p
  | DataRandom _ => []
  end.

(** Invariant of the runs: the ids of the collection and of the pool are
    pairwise distinct, and the random source's counter is above every id. *)
Record inv (w : world) : Prop := {
  inv_foods : (foods w < length (arrs w))%nat;
  inv_alias : no_alias w;
  inv_data : match data w with
             | DataPool p => (p < length (arrs w))%nat
             | DataRandom n => Forall (fun k => k < n) (record_ids w (collection w))
             end;
  inv_wf : Forall (wf_slot w) (collection w ++ pool_slots w);
  inv_nodup : NoDup (record_ids w (collection w ++ pool_slots w))
}.

Section Ids.

Lemma record_ids_app (w : world) (xs ys : list val) :
  record_ids w (xs ++ ys) = record_ids w xs ++ record_ids w ys.
Proof.
  induction xs as [|x xs IH]; simpl; [done|].
  destruct (get_id w x); by rewrite IH.
Qed.

Lemma record_ids_sublist (w : world) (xs ys : list val) :
  xs `sublist_of` ys -> record_ids w xs `sublist_of` record_ids w ys.
Proof.
  induction 1 as [|x l1 l2 _ IH|x l1 l2 _ IH]; simpl; [done| |].
  - destruct (get_id w x); [by constructor|done].
  - destruct (get_id w x); [by constructor|done].
Qed.

Lemma get_food_prefix_wf (w w' : world) (v : val) :
  objs w `prefix_of` objs w' -> wf_slot w v -> get_food w' v = get_food w v.
Proof.
  intros Hp. destruct v as [|l]; simpl; [done|]. intros Hl.
  destruct (lookup_lt_is_Some_2 (objs w) l Hl) as [f Hf].
  rewrite Hf. by eapply prefix_lookup_Some.
Qed.

Lemma wf_slot_prefix (w w' : world) (v : val) :
  objs w `prefix_of` objs w' -> wf_slot w v -> wf_slot w' v.
Proof.
  intros Hp. destruct v; simpl; [done|]. apply prefix_length in Hp. lia.
Qed.

Lemma record_ids_prefix (w w' : world) (xs : list val) :
  objs w `prefix_of` objs w' -> Forall (wf_slot w) xs ->
  record_ids w' xs = record_ids w xs.
Proof.
  intros Hp. induction 1 as [|x xs Hx _ IH]; simpl; [done|].
  unfold get_id. by rewrite (get_food_prefix_wf w w' x Hp Hx), IH.
Qed.

Lemma record_ids_same_objs (w w' : world) (xs : list val) :
  objs w' = objs w -> record_ids w' xs = record_ids w xs.
Proof.
  intros Ho. induction xs as [|x xs IH]; simpl; [done|].
  by rewrite (get_id_same_objs w' w x Ho), IH.
Qed.

Lemma wf_slots_same_objs (w w' : world) (xs : list val) :
  objs w' = objs w -> Forall (wf_slot w) xs -> Forall (wf_slot w') xs.
Proof.
  intros Ho H. eapply Forall_impl; [exact H|]. intros [|l]; simpl; [done|]. by rewrite Ho.
Qed.

Lemma inv_init_random : inv init_random.
Proof.
  split; simpl.
  - lia.
  - done.
  - repeat constructor; lia.
  - repeat constructor; simpl; lia.
  - vm_compute. repeat (apply NoDup_cons; split;
      [intros Hin; apply list_elem_of_In in Hin; simpl in Hin; lia|]).
    by apply NoDup_nil.
Qed.

Lemma inv_init_pool : inv init_pool.
Proof.
  split; simpl.
  - lia.
  - unfold no_alias; simpl. lia.
  - lia.
  - repeat constructor; simpl; lia.
  - vm_compute. repeat (apply NoDup_cons; split;
      [intros Hin; apply list_elem_of_In in Hin; simpl in Hin; lia|]).
    by apply NoDup_nil.
Qed.

End Ids.

Section Preservation.

Lemma Forall_sublist_of {A} (P : A -> Prop) (l1 l2 : list A) :
  l1 `sublist_of` l2 -> Forall P l2 -> Forall P l1.
Proof.
  induction 1; intros HP; [done| |].
  - inversion HP; subst. constructor; auto.
  - inversion HP; subst. auto.
Qed.

Lemma inv_push (w1 : world) (ys : list val) :
  match data w1 with
  | DataPool p => (p < length (arrs w1))%nat
  | DataRandom n => Forall (fun k => k < n) (record_ids w1 ys)
  end ->
  Forall (wf_slot w1) (ys ++ pool_slots w1) ->
  NoDup (record_ids w1 (ys ++ pool_slots w1)) ->
  inv (set_foods (set_heap w1 (objs w1) (arrs w1 ++ [ys])) (length (arrs w1))).
Proof.
  intros Hd Hwf Hnd.
  assert (Hc : collection (set_foods (set_heap w1 (objs w1) (arrs w1 ++ [ys])) (length (arrs w1))) = ys).
  { unfold collection, set_foods, set_heap; simpl. apply arr_push. }
  assert (Hp : pool_slots (set_foods (set_heap w1 (objs w1) (arrs w1 ++ [ys])) (length (arrs w1)))
               = pool_slots w1).
  { unfold pool_slots, set_foods, set_heap; simpl. destruct (data w1) as [n|p]; [done|].
    by rewrite arr_push_old. }
  split; rewrite ?Hc, ?Hp; try done; unfold no_alias, set_foods, set_heap; simpl.
  - rewrite length_app. simpl. lia.
  - destruct (data w1); [done|lia].
  - destruct (data w1); [|rewrite length_app; simpl; lia].
    by rewrite (record_ids_same_objs w1).
  - by rewrite (record_ids_same_objs w1).
Qed.

Lemma inv_filterChange (s : string) (w : world) :
  inv w -> inv (handleFilterChange s w).
Proof.
  intros [Hf Hna Hd Hwf Hnd]. unfold handleFilterChange, set_filterBy.
  split; unfold collection, pool_slots, no_alias, arr in *; simpl; try done;
    rewrite (record_ids_same_objs w); done.
Qed.

Lemma inv_remove (i : Z) (w w' : world) :
  inv w -> handleLiClick_remove i w = Some w' -> inv w'.
Proof.
  intros [Hf Hna Hd Hwf Hnd]. unfold handleLiClick_remove.
  destruct (filter_id_neq w i (arr w (foods w))) as [ys|] eqn:Hys; [|done].
  intros H. injection H as <-.
  apply filter_id_neq_keeps in Hys.
  assert (Hsub : ys ++ pool_slots w `sublist_of` collection w ++ pool_slots w).
  { by apply sublist_app. }
  apply inv_push.
  - destruct (data w); [|done]. eapply Forall_sublist_of; [|exact Hd].
    by apply record_ids_sublist.
  - by eapply Forall_sublist_of.
  - eapply sublist_NoDup; [exact Hnd|]. by apply record_ids_sublist.
Qed.

Lemma map_inc_heat_defined (w : world) (i : Z) (xs : list val) :
  forall w1 ys, map_inc_heat w i xs = Some (w1, ys) -> Forall (fun v => v <> VUndef) xs.
Proof.
  revert w. induction xs as [|x xs IH]; intros w w1 ys; simpl; [by constructor|].
  destruct (get_food w x) as [f|] eqn:Hf; [|done].
  assert (Hx : x <> VUndef) by (intros ->; discriminate).
  destruct (Z.eqb (id f) i).
  - simpl. destruct (map_inc_heat _ i xs) as [[w2 zs]|] eqn:Hm; [|done].
    intros _. constructor; [done|]. by apply IH in Hm.
  - destruct (map_inc_heat w i xs) as [[w2 zs]|] eqn:Hm; [|done].
    intros _. constructor; [done|]. by apply IH in Hm.
Qed.

Lemma wf_slot_is_record (w : world) (v : val) :
  wf_slot w v -> v <> VUndef -> is_record w v.
Proof.
  destruct v as [|l]; simpl; [done|]. intros Hl _. unfold is_record; simpl.
  destruct (lookup_lt_is_Some_2 (objs w) l Hl) as [f ->]. done.
Qed.

Lemma map_inc_heat_fields (i : Z) (xs : list val) :
  forall w0 w1 ys, map_inc_heat w0 i xs = Some (w1, ys) ->
  data w1 = data w0 /\ foods w1 = foods w0.
Proof.
  induction xs as [|x xs IH]; intros w0 w1 ys; simpl.
  - intros H. by injection H as <- _.
  - destruct (get_food w0 x) as [f|]; [|done].
    destruct (Z.eqb (id f) i).
    + simpl. destruct (map_inc_heat _ i xs) as [[w2 zs]|] eqn:Hm; [|done].
      intros H. injection H as <- _. by apply IH in Hm.
    + destruct (map_inc_heat w0 i xs) as [[w2 zs]|] eqn:Hm; [|done].
      intros H. injection H as <- _. by apply IH in Hm.
Qed.

Lemma get_food_wf (w : world) (v : val) (f : food) :
  get_food w v = Some f -> wf_slot w v.
Proof.
  destruct v as [|l]; simpl; [done|]. intros Hl.
  apply lookup_lt_is_Some_1. by rewrite Hl.
Qed.

Lemma record_ids_update (w w1 : world) (i : Z) (xs ys : list val) :
  Forall2 (update_slot w w1 i) xs ys -> record_ids w1 ys = record_ids w xs.
Proof.
  induction 1 as [|x y xs ys (f & Hf & Hs) _ IH]; simpl; [done|].
  unfold get_id at 2. rewrite Hf, IH. unfold get_id.
  destruct (Z.eqb (id f) i).
  - by rewrite Hs.
  - destruct Hs as [_ ->]. done.
Qed.

Lemma update_slots_wf (w w1 : world) (i : Z) (xs ys : list val) :
  Forall2 (update_slot w w1 i) xs ys -> Forall (wf_slot w1) ys.
Proof.
  induction 1 as [|x y xs ys (f & Hf & Hs) _ IH]; constructor; [|done].
  destruct (Z.eqb (id f) i).
  - by eapply get_food_wf.
  - destruct Hs as [_ Hs]. by eapply get_food_wf.
Qed.

Lemma inv_update (i : Z) (w w' : world) :
  inv w -> handleLiClick_update i w = Some w' -> inv w'.
Proof.
  intros [Hf Hna Hd Hwf Hnd]. unfold handleLiClick_update.
  destruct (map_inc_heat w i (arr w (foods w))) as [[w1 ys]|] eqn:Hm; [|done].
  intros H. injection H as <-.
  pose proof (map_inc_heat_defined _ _ _ _ _ Hm) as Hdef.
  apply Forall_app in Hwf as [HwfC HwfP].
  assert (Hrec : Forall (is_record w) (collection w)).
  { clear -HwfC Hdef. unfold collection in *. induction HwfC; inversion Hdef; subst;
      constructor; [by apply wf_slot_is_record|auto]. }
  destruct (map_inc_heat_Some i (collection w) w Hrec) as (w1' & ys' & Hm' & Hp & Ha & _ & Hr).
  unfold collection in Hm'. rewrite Hm in Hm'. injection Hm' as <- <-.
  destruct (map_inc_heat_fields _ _ _ _ _ Hm) as [Hdat _].
  assert (HP : pool_slots w1 = pool_slots w).
  { unfold pool_slots, arr. by rewrite Hdat, Ha. }
  assert (HidsP : record_ids w1 (pool_slots w) = record_ids w (pool_slots w)).
  { by apply record_ids_prefix. }
  apply inv_push; rewrite ?HP.
  - rewrite Hdat, Ha. destruct (data w); [|done]. by erewrite record_ids_update.
  - apply Forall_app. split; [by eapply update_slots_wf|].
    eapply Forall_impl; [exact HwfP|]. intros v. by apply wf_slot_prefix.
  - rewrite record_ids_app, HidsP, (record_ids_update w w1 i (collection w) ys Hr).
    by rewrite <- record_ids_app.
Qed.

Lemma inv_add (index : nat) (w : world) :
  inv w -> inv (handleAddFood index w).
Proof.
  intros [Hf Hna Hd Hwf Hnd].
  destruct (getNewFood index w) as [w1 r] eqn:Hg.
  rewrite (handleAddFood_unfold index w w1 r Hg).
  destruct (collection_getNewFood index w w1 r Hna Hg) as [Hf1 Hc1].
  change (arr w1 (foods w1)) with (collection w1). rewrite Hc1.
  unfold getNewFood in Hg. unfold pool_slots in Hwf, Hnd.
  destruct (data w) as [n|p] eqn:Hdw.
  - (* the random source: a fresh object with id [nextId] *)
    unfold getNewRandomSpicyFood in Hg.
    destruct (nth index newSpicyFoods_templates _) as [[nm cu] ht].
    simpl in Hg. injection Hg as <- <-.
    rewrite app_nil_r in Hwf, Hnd.
    set (w1 := set_data (set_heap w (objs w ++ [mkFood n nm cu ht]) (arrs w)) (DataRandom (n + 1))).
    assert (Hpre : objs w `prefix_of` objs w1) by (simpl; by apply prefix_app_r).
    assert (Hids : record_ids w1 (collection w ++ [VRef (length (objs w))]) =
                   record_ids w (collection w) ++ [n]).
    { rewrite record_ids_app, (record_ids_prefix w) by done.
      simpl. unfold get_id, get_food; simpl. by rewrite list_lookup_middle. }
    apply inv_push; unfold pool_slots; simpl data; rewrite ?app_nil_r.
    + rewrite Hids. apply Forall_app. split; [|constructor; [lia|constructor]].
      eapply Forall_impl; [exact Hd|]. intros k Hk. simpl in Hk. lia.
    + apply Forall_app. split.
      * eapply Forall_impl; [exact Hwf|]. intros v. by apply wf_slot_prefix.
      * constructor; [|constructor]. simpl. rewrite length_app. simpl. lia.
    + rewrite Hids. apply NoDup_app. split; [done|]. split; [|apply NoDup_singleton].
      intros k Hk Hin. apply list_elem_of_In in Hin. destruct Hin as [<-|[]].
      rewrite Forall_forall in Hd. specialize (Hd n Hk). lia.
  - (* the pool source: [shift] *)
    unfold getNewSpicyFood in Hg. destruct (arr w p) as [|x rest] eqn:Hp.
    + injection Hg as <- <-.
      apply inv_push; unfold pool_slots; rewrite Hdw, ?Hp, ?app_nil_r; try done.
      * rewrite app_nil_r in Hwf. apply Forall_app. split; [done|by repeat constructor].
      * rewrite app_nil_r in Hnd. rewrite record_ids_app. simpl. by rewrite app_nil_r.
    + injection Hg as <- <-.
      assert (Hrest : arr (set_heap w (objs w) (<[p:=rest]> (arrs w))) p = rest).
      { unfold arr; simpl. by rewrite list_lookup_insert_eq. }
      apply inv_push; unfold pool_slots; simpl data; rewrite Hdw, ?Hrest.
      * simpl. by rewrite length_insert.
      * rewrite <- app_assoc. simpl. by apply (wf_slots_same_objs w).
      * rewrite <- app_assoc. simpl. by rewrite (record_ids_same_objs w).
Qed.

(** Every run of user events keeps the invariant. *)
Lemma inv_run (es : list event) :
  forall w, inv w -> inv (run es w).
Proof.
  induction es as [|e es IH]; intros w Hw; simpl; [done|].
  apply IH. destruct e as [index|i|i|s]; simpl.
  - by apply inv_add.
  - destruct (handleLiClick_remove i w) as [w'|] eqn:H; simpl; [|done].
    by eapply inv_remove.
  - destruct (handleLiClick_update i w) as [w'|] eqn:H; simpl; [|done].
    by eapply inv_update.
  - by apply inv_filterChange.
Qed.

Lemma inv_ids_unique (w : world) : inv w -> ids_unique w.
Proof.
  intros [_ _ _ _ Hnd]. unfold ids_unique.
  rewrite record_ids_app in Hnd. apply NoDup_app in Hnd. by destruct Hnd.
Qed.

End Preservation.

(** [C5]: ids stay unique: from the seed collection (ids 1 and 2), after
    any sequence of clicks (add with the module's record source, remove,
    update, filter changes), no two food objects of the collection share an
    id; this holds for both versions of the data module. *)
Theorem ids_unique_reachable (es : list event) :
  ids_unique (run es init_random) /\ ids_unique (run es init_pool).
Proof.
  split; apply inv_ids_unique, inv_run; [apply inv_init_random | apply inv_init_pool].
Qed.

(** ** An exhausted source *)

Section Exhausted.


Lemma render_rows_undef (w : world) (ys : list val) :
  In VUndef ys -> render_rows w ys = None.
Proof.
  induction ys as [|y ys IH]; simpl; [done|]. intros [->|Hin]; [done|].
  destruct (get_food w y); [|done]. by rewrite IH.
Qed.

End Exhausted.

(** The pool version after three clicks: [newSpicyFoods] is empty. *)
Definition exhausted_pool : world := run [AddFood 0; AddFood 0; AddFood 0] init_pool.




(** ** The starter component *)

(** [n] clicks on the starter's "Add New Food" button. *)
Fixpoint starter_clicks (n : nat) (w : world) : option world :=
  match n with
  | O => Some w
  | S n' =>
      match handleAddFood_starter w with
      | Some w1 => starter_clicks n' w1
      | None => None
      end
  end.

(** [C10]: in the starter as shipped, [n] clicks never call [setFoods]: the
    [foods] state is the same array with the same contents and no object
    changes, while each click shifts one record off the pool, so the pool
    is [drop n] of what it was, and the log shows the shifted records, then
    [undefined] once the pool is empty. *)
Theorem starter_clicks_keep_foods (n : nat) (w : world) (p : nat) :
  data w = DataPool p -> p <> foods w ->
  exists w', starter_clicks n w = Some w' /\
    foods w' = foods w /\ collection w' = collection w /\ objs w' = objs w /\
    arr w' p = drop n (arr w p) /\
    console w' = console w ++ take n (arr w p) ++ replicate (n - length (arr w p)) VUndef.
Proof.
  revert w. induction n as [|n IH]; intros w Hd Hp.
  - exists w. simpl. repeat split; try done. by rewrite app_nil_r.
  - simpl. unfold handleAddFood_starter. rewrite Hd.
    unfold getNewSpicyFood. destruct (arr w p) as [|x rest] eqn:Hpool.
    + destruct (IH (log w VUndef)) as (w' & Hr & Hf & Hc & Ho & Ha & Hl); try done.
      exists w'. split; [done|]. rewrite Hf, Hc, Ho, Ha, Hl.
      unfold log, collection, arr in *; simpl in *. rewrite Hpool.
      do 3 (split; [done|]). split; [by destruct n|]. rewrite <- app_assoc. simpl. rewrite take_nil. simpl. by rewrite Nat.sub_0_r.
    + set (w1 := log (set_heap w (objs w) (<[p:=rest]> (arrs w))) x).
      assert (Hlt : (p < length (arrs w))%nat).
      { apply lookup_lt_is_Some_1. unfold arr in Hpool.
        destruct (arrs w !! p); [done|discriminate]. }
      assert (Hw1p : arr w1 p = rest).
      { unfold arr; simpl. by rewrite list_lookup_insert_eq. }
      assert (Hw1c : collection w1 = collection w).
      { unfold collection, arr; simpl. by rewrite list_lookup_insert_ne. }
      destruct (IH w1) as (w' & Hr & Hf & Hc & Ho & Ha & Hl); try done.
      exists w'. split; [done|]. rewrite Hf, Hc, Ho, Ha, Hl, Hw1p, Hw1c.
      repeat split; try done. simpl. by rewrite <- app_assoc.
Qed.

Lemma starter_clicks_keep_foods_witness :
  exists w', starter_clicks 4 init_pool = Some w' /\
    foods w' = foods init_pool /\ collection w' = collection init_pool /\
    objs w' = objs init_pool /\
    arr w' 1 = drop 4 (arr init_pool 1) /\
    console w' = console init_pool ++ take 4 (arr init_pool 1) ++
                 replicate (4 - length (arr init_pool 1)) VUndef.
Proof.
  apply (starter_clicks_keep_foods 4 init_pool 1); simpl; [reflexivity | lia].
Defined.

(** * Further properties of the component *)

(** The ids of the collection followed by those of the source's pool. *)
Definition all_ids (w : world) : list Z := record_ids w (collection w ++ pool_slots w).

Section Steps.

Lemma push_facts (w1 : world) (ys : list val) :
  match data w1 with
  | DataPool p => (p < length (arrs w1))%nat
  | DataRandom _ => True
  end ->
  let w' := set_foods (set_heap w1 (objs w1) (arrs w1 ++ [ys])) (length (arrs w1)) in
  collection w' = ys /\ pool_slots w' = pool_slots w1 /\ objs w' = objs w1 /\ data w' = data w1.
Proof.
  intros Hd. simpl. split; [|split; [|done]].
  - unfold collection, set_foods, set_heap; simpl. apply arr_push.
  - unfold pool_slots, set_foods, set_heap; simpl. destruct (data w1) as [n|p]; [done|].
    by rewrite arr_push_old.
Qed.

Lemma inv_data_pool (w : world) :
  inv w -> match data w with
           | DataPool p => (p < length (arrs w))%nat
           | DataRandom _ => True
           end.
Proof. intros [_ _ Hd _ _]. by destruct (data w). Qed.

Lemma all_ids_remove (i : Z) (w w' : world) :
  inv w -> handleLiClick_remove i w = Some w' ->
  all_ids w' `sublist_of` all_ids w.
Proof.
  intros Hinv. pose proof (inv_data_pool w Hinv) as Hd.
  unfold handleLiClick_remove.
  destruct (filter_id_neq w i (arr w (foods w))) as [ys|] eqn:Hys; [|done].
  intros H. injection H as <-.
  destruct (push_facts w ys Hd) as (Hc & Hp & Ho & _).
  unfold all_ids. rewrite Hc, Hp, (record_ids_same_objs w) by done.
  apply record_ids_sublist, sublist_app; [|done].
  by eapply filter_id_neq_keeps.
Qed.

Lemma update_result (i : Z) (w w' : world) :
  inv w -> handleLiClick_update i w = Some w' ->
  exists w1, objs w `prefix_of` objs w1 /\
    Forall2 (update_slot w w1 i) (collection w) (collection w') /\
    pool_slots w' = pool_slots w /\ objs w' = objs w1 /\ data w' = data w.
Proof.
  intros Hinv. pose proof Hinv as [Hf Hna Hd Hwf Hnd].
  unfold handleLiClick_update.
  destruct (map_inc_heat w i (arr w (foods w))) as [[w1 ys]|] eqn:Hm; [|done].
  intros H. injection H as <-.
  pose proof (map_inc_heat_defined _ _ _ _ _ Hm) as Hdef.
  apply Forall_app in Hwf as [HwfC HwfP].
  assert (Hrec : Forall (is_record w) (collection w)).
  { clear -HwfC Hdef. unfold collection in *. induction HwfC; inversion Hdef; subst;
      constructor; [by apply wf_slot_is_record|auto]. }
  destruct (map_inc_heat_Some i (collection w) w Hrec) as (w1' & ys' & Hm' & Hp & Ha & _ & Hr).
  unfold collection in Hm'. rewrite Hm in Hm'. injection Hm' as <- <-.
  destruct (map_inc_heat_fields _ _ _ _ _ Hm) as [Hdat _].
  assert (Hd1 : match data w1 with
                | DataPool p => (p < length (arrs w1))%nat
                | DataRandom _ => True end).
  { rewrite Hdat, Ha. by apply inv_data_pool. }
  destruct (push_facts w1 ys Hd1) as (Hc & Hps & Ho & Hdd).
  exists w1. split; [done|]. rewrite Hc. split; [done|].
  split; [|split; [done|by rewrite Hdd]].
  rewrite Hps. unfold pool_slots, arr. by rewrite Hdat, Ha.
Qed.

Lemma all_ids_update (i : Z) (w w' : world) :
  inv w -> handleLiClick_update i w = Some w' -> all_ids w' = all_ids w.
Proof.
  intros Hinv Hu. pose proof Hinv as [_ _ _ Hwf _].
  destruct (update_result i w w' Hinv Hu) as (w1 & Hp & Hr & Hps & Ho & _).
  apply Forall_app in Hwf as [_ HwfP].
  unfold all_ids. rewrite Hps, !record_ids_app.
  rewrite (record_ids_same_objs w1 w') by done.
  rewrite (record_ids_update w w1 i _ _ Hr).
  f_equal. rewrite (record_ids_same_objs w1 w') by done. by apply record_ids_prefix.
Qed.

Lemma all_ids_filterChange (s : string) (w : world) :
  all_ids (handleFilterChange s w) = all_ids w.
Proof.
  unfold all_ids, handleFilterChange, set_filterBy, collection, pool_slots, arr; simpl.
  by apply record_ids_same_objs.
Qed.

(** Adding moves the next record of the source to the end of the
    collection: with the pool, the sequence of ids does not change; with
    the counter, [nextId] is appended. *)
Lemma all_ids_add (index : nat) (w : world) :
  inv w ->
  all_ids (handleAddFood index w) =
  match data w with
  | DataRandom n => all_ids w ++ [n]
  | DataPool _ => all_ids w
  end.
Proof.
  intros Hinv. pose proof Hinv as [Hf Hna Hd Hwf Hnd].
  destruct (getNewFood index w) as [w1 r] eqn:Hg.
  rewrite (handleAddFood_unfold index w w1 r Hg).
  destruct (collection_getNewFood index w w1 r Hna Hg) as [Hf1 Hc1].
  change (arr w1 (foods w1)) with (collection w1). rewrite Hc1.
  unfold getNewFood in Hg. unfold all_ids.
  destruct (data w) as [n|p] eqn:Hdw.
  - unfold getNewRandomSpicyFood in Hg.
    destruct (nth index newSpicyFoods_templates _) as [[nm cu] ht].
    simpl in Hg. injection Hg as <- <-.
    unfold pool_slots in Hwf. rewrite Hdw, app_nil_r in Hwf.
    set (w1 := set_data (set_heap w (objs w ++ [mkFood n nm cu ht]) (arrs w)) (DataRandom (n + 1))).
    destruct (push_facts w1 (collection w ++ [VRef (length (objs w))]) I)
      as (Hc & Hps & Ho & Hdd).
    assert (Hp1 : pool_slots w1 = []) by reflexivity.
    assert (Hp0 : pool_slots w = []) by (unfold pool_slots; by rewrite Hdw).
    rewrite Hc, Hps, Hp1, Hp0, !app_nil_r.
    rewrite (record_ids_same_objs w1) by done.
    rewrite record_ids_app, (record_ids_prefix w) by (try exact Hwf; simpl; by apply prefix_app_r).
    simpl. unfold get_id, get_food; simpl. by rewrite list_lookup_middle.
  - unfold getNewSpicyFood in Hg. destruct (arr w p) as [|x rest] eqn:Hp.
    + injection Hg as <- <-.
      assert (Hd' : match data w with DataPool p => (p < length (arrs w))%nat
                    | DataRandom _ => True end) by (by rewrite Hdw).
      destruct (push_facts w (collection w ++ [VUndef]) Hd') as (Hc & Hps & Ho & Hdd).
      rewrite Hc, Hps, (record_ids_same_objs w) by done.
      rewrite !record_ids_app. simpl. by rewrite app_nil_r.
    + injection Hg as <- <-.
      set (w1 := set_heap w (objs w) (<[p:=rest]> (arrs w))).
      assert (Hd' : match data w1 with DataPool p => (p < length (arrs w1))%nat
                    | DataRandom _ => True end).
      { unfold w1; simpl. rewrite Hdw. by rewrite length_insert. }
      destruct (push_facts w1 (collection w ++ [x]) Hd') as (Hc & Hps & Ho & Hdd).
      assert (Hrest : pool_slots w1 = rest).
      { unfold pool_slots, arr, w1; simpl. rewrite Hdw. by rewrite list_lookup_insert_eq. }
      assert (Hp0 : pool_slots w = x :: rest) by (unfold pool_slots; by rewrite Hdw).
      rewrite Hc, Hps, Hrest, Hp0, (record_ids_same_objs w) by done.
      by rewrite <- app_assoc.
Qed.

End Steps.

Section Sorted_ids.

Lemma SSorted_sublist (l1 l2 : list Z) :
  l1 `sublist_of` l2 -> StronglySorted Z.lt l2 -> StronglySorted Z.lt l1.
Proof.
  induction 1 as [|x l1 l2 Hs IH|x l1 l2 Hs IH]; intros H; [done| |].
  - apply StronglySorted_inv in H as [H1 H2]. constructor; [by apply IH|].
    by eapply Forall_sublist_of.
  - apply StronglySorted_inv in H as [H1 _]. by apply IH.
Qed.

Lemma SSorted_snoc (l : list Z) (n : Z) :
  StronglySorted Z.lt l -> Forall (fun k => k < n) l -> StronglySorted Z.lt (l ++ [n]).
Proof.
  induction l as [|x l IH]; simpl; intros Hs Hlt.
  - repeat constructor.
  - apply StronglySorted_inv in Hs as [Hs Hx]. inversion Hlt; subst.
    constructor; [by apply IH|]. apply Forall_app. split; [done|]. by constructor.
Qed.

Lemma sorted_handle (e : event) (w w' : world) :
  inv w -> handle e w = Some w' ->
  StronglySorted Z.lt (all_ids w) -> StronglySorted Z.lt (all_ids w').
Proof.
  intros Hinv He Hs. destruct e as [index|i|i|s]; simpl in He.
  - injection He as <-. rewrite all_ids_add by done.
    pose proof Hinv as [_ _ Hd _ _]. destruct (data w) as [n|p] eqn:Hdw; [|done].
    apply SSorted_snoc; [done|].
    unfold all_ids, pool_slots. by rewrite Hdw, app_nil_r.
  - eapply SSorted_sublist; [|exact Hs]. by eapply all_ids_remove.
  - by rewrite (all_ids_update i w w').
  - injection He as <-. by rewrite all_ids_filterChange.
Qed.

Lemma sorted_run (es : list event) :
  forall w, inv w -> StronglySorted Z.lt (all_ids w) ->
  StronglySorted Z.lt (all_ids (run es w)).
Proof.
  induction es as [|e es IH]; intros w Hinv Hs; simpl; [done|].
  destruct (handle e w) as [w'|] eqn:He; simpl; [|by apply IH].
  apply IH.
  - pose proof (inv_run [e] w Hinv) as H. simpl in H. by rewrite He in H.
  - by eapply sorted_handle.
Qed.

End Sorted_ids.

(** The collection is always ordered by strictly increasing id: new foods
    get larger ids than every food shown ([nextId] counts up from 3; the
    pool holds ids 3, 4, 5 in order, after the seed's 1 and 2) and are
    appended at the end, while removing and updating keep the order and the
    ids.  With the pool, the ids still in the pool come after those of the
    collection, in increasing order too. *)
Theorem ids_sorted_reachable (es : list event) :
  StronglySorted Z.lt (record_ids (run es init_random) (collection (run es init_random))) /\
  StronglySorted Z.lt (all_ids (run es init_pool)).
Proof.
  split.
  - pose proof (sorted_run es init_random inv_init_random) as H.
    unfold all_ids in H. rewrite <- (app_nil_r (collection _)).
    assert (Hp : pool_slots (run es init_random) = []).
    { clear H. assert (Hd : forall w, (exists n, data w = DataRandom n) ->
                              exists n, data (run es w) = DataRandom n).
      { induction es as [|e es IH]; intros w [n Hn]; simpl; [by exists n|].
        apply IH. destruct e as [index|i|i|s]; simpl.
        - unfold handleAddFood, getNewFood, getNewRandomSpicyFood. rewrite Hn.
          destruct (nth index newSpicyFoods_templates _) as [[nm cu] ht]. simpl. by eexists.
        - destruct (handleLiClick_remove i w) as [w'|] eqn:Hr; simpl; [|by exists n].
          unfold handleLiClick_remove in Hr. destruct (filter_id_neq _ _ _); [|done].
          injection Hr as <-. simpl. by exists n.
        - destruct (handleLiClick_update i w) as [w'|] eqn:Hu; simpl; [|by exists n].
          unfold handleLiClick_update in Hu.
          destruct (map_inc_heat w i _) as [[w1 ys]|] eqn:Hm; [|done].
          injection Hu as <-. simpl. destruct (map_inc_heat_fields _ _ _ _ _ Hm) as [-> _].
          by exists n.
        - by exists n. }
      destruct (Hd init_random (ex_intro _ 3 eq_refl)) as [n Hn].
      unfold pool_slots. by rewrite Hn. }
    rewrite <- Hp. apply H.
    vm_compute. repeat constructor; lia.
  - apply sorted_run; [apply inv_init_pool|].
    vm_compute. repeat constructor; lia.
Qed.

(** ** When handlers throw *)

Section Throws.

Lemma filter_id_neq_undef (w : world) (i : Z) (xs : list val) :
  In VUndef xs -> filter_id_neq w i xs = None.
Proof.
  induction xs as [|x xs IH]; simpl; [done|]. intros [->|Hin]; [done|].
  destruct (get_id w x); [|done]. by rewrite IH.
Qed.

Lemma map_inc_heat_undef (i : Z) (xs : list val) :
  In VUndef xs -> forall w, map_inc_heat w i xs = None.
Proof.
  induction xs as [|x xs IH]; simpl; [done|]. intros [->|Hin] w; [done|].
  destruct (get_food w x) as [f|]; [|done].
  destruct (Z.eqb (id f) i); simpl; by rewrite IH.
Qed.

Lemma filter_cuisine_In_undef (w : world) (fb : string) (xs : list val) :
  In VUndef xs ->
  match filter_cuisine w fb xs with None => True | Some ys => In VUndef ys end.
Proof.
  induction xs as [|x xs IH]; simpl; [done|]. intros [->|Hin].
  - destruct (String.eqb fb "All"); simpl; [|done].
    destruct (filter_cuisine w fb xs); simpl; [by left|done].
  - destruct (if String.eqb fb "All" then Some true else _) as [b|]; [|done].
    specialize (IH Hin). destruct (filter_cuisine w fb xs) as [ys|]; [|done].
    destruct b; [by right|done].
Qed.

Lemma filter_id_neq_records (w : world) (i : Z) (xs : list val) :
  Forall (is_record w) xs -> filter_id_neq w i xs <> None.
Proof.
  intros H. destruct (filter_id_neq_Some w i xs H) as (ys & -> & _). done.
Qed.

Lemma filter_cuisine_records (w : world) (fb : string) (xs : list val) :
  Forall (is_record w) xs ->
  exists ys, filter_cuisine w fb xs = Some ys /\ ys `sublist_of` xs.
Proof.
  induction 1 as [|x xs Hx _ (ys & Hys & Hsub)]; simpl; [by exists []|].
  unfold is_record in Hx. destruct (get_food w x) as [f|]; [|done].
  rewrite Hys. destruct (String.eqb fb "All"); simpl.
  - eexists. split; [done|]. by constructor.
  - destruct (String.eqb (cuisine f) fb); eexists; (split; [done|]); by constructor.
Qed.

Lemma render_rows_records (w : world) (xs : list val) :
  Forall (is_record w) xs -> render_rows w xs <> None.
Proof.
  induction 1 as [|x xs Hx _ IH]; simpl; [done|].
  unfold is_record in Hx. destruct (get_food w x); [|done].
  by destruct (render_rows w xs).
Qed.

Lemma render_records (w : world) :
  Forall (is_record w) (collection w) -> render w <> None.
Proof.
  intros Hc. unfold render, foodsToDisplay.
  destruct (filter_cuisine_records w (filterBy w) (collection w) Hc) as (ys & Hys & Hsub).
  unfold collection in Hys. rewrite Hys. apply render_rows_records.
  by eapply Forall_sublist_of.
Qed.

End Throws.

(** Once [undefined] is in the collection (the pool version after its
    source ran out), every click on a food throws, whichever id it names:
    the removing [handleLiClick] and the updating one both read [food.id]
    of [undefined]; and rendering the list throws too. *)
Theorem undefined_blocks_handlers (w : world) (i : Z) :
  In VUndef (collection w) ->
  handleLiClick_remove i w = None /\ handleLiClick_update i w = None /\ render w = None.
Proof.
  intros Hin. unfold handleLiClick_remove, handleLiClick_update, render, foodsToDisplay.
  unfold collection in Hin.
  rewrite filter_id_neq_undef, map_inc_heat_undef by done.
  split; [done|]. split; [done|].
  pose proof (filter_cuisine_In_undef w (filterBy w) _ Hin) as H.
  destruct (filter_cuisine _ _ _) as [ys|]; [|done].
  by apply render_rows_undef.
Qed.

Lemma undefined_blocks_handlers_witness :
  In VUndef (collection (handleAddFood 0 exhausted_pool)) /\
  handleLiClick_remove 1 (handleAddFood 0 exhausted_pool) = None /\
  handleLiClick_update 1 (handleAddFood 0 exhausted_pool) = None /\
  render (handleAddFood 0 exhausted_pool) = None.
Proof.
  assert (H : In VUndef (collection (handleAddFood 0 exhausted_pool))).
  { vm_compute. right; right; right; right; right; left. reflexivity. }
  split; [exact H|]. exact (undefined_blocks_handlers _ 1 H).
Defined.

Section Random_records.

(** With the counter source, every slot of the collection is defined. *)
Definition random_defined (w : world) : Prop :=
  (exists n, data w = DataRandom n) /\ Forall (fun v => v <> VUndef) (collection w).

Lemma random_defined_handle (e : event) (w w' : world) :
  inv w -> random_defined w -> handle e w = Some w' -> random_defined w'.
Proof.
  intros Hinv [[n Hn] Hdef] He. pose proof (inv_data_pool w Hinv) as Hd.
  destruct e as [index|i|i|s]; simpl in He.
  - injection He as <-. pose proof Hinv as [_ Hna _ _ _].
    destruct (getNewFood index w) as [w1 r] eqn:Hg.
    rewrite (handleAddFood_unfold index w w1 r Hg).
    destruct (collection_getNewFood index w w1 r Hna Hg) as [Hf1 Hc1].
    change (arr w1 (foods w1)) with (collection w1). rewrite Hc1.
    unfold getNewFood, getNewRandomSpicyFood in Hg. rewrite Hn in Hg.
    destruct (nth index newSpicyFoods_templates _) as [[nm cu] ht].
    simpl in Hg. injection Hg as <- <-.
    destruct (push_facts (set_data (set_heap w (objs w ++ [mkFood n nm cu ht]) (arrs w))
      (DataRandom (n + 1))) (collection w ++ [VRef (length (objs w))]) I) as (Hc & _ & _ & Hdd).
    split; [rewrite Hdd; by eexists|]. rewrite Hc.
    apply Forall_app. split; [done|]. by repeat constructor.
  - destruct (filter_id_neq w i (arr w (foods w))) as [ys|] eqn:Hys;
      unfold handleLiClick_remove in He; rewrite Hys in He; [|done].
    injection He as <-. destruct (push_facts w ys Hd) as (Hc & _ & _ & Hdd).
    split; [rewrite Hdd; by exists n|]. rewrite Hc.
    eapply Forall_sublist_of; [|exact Hdef]. by eapply filter_id_neq_keeps.
  - destruct (update_result i w w' Hinv He) as (w1 & _ & Hr & _ & _ & Hdd).
    split; [rewrite Hdd; by exists n|].
    clear -Hr. induction Hr as [|x y xs ys (f & Hf & Hs) _ IH]; constructor; [|done].
    destruct (Z.eqb (id f) i).
    + intros ->. discriminate.
    + destruct Hs as [-> _]. intros ->. discriminate.
  - injection He as <-. split; [by exists n|]. exact Hdef.
Qed.

Lemma random_defined_run (es : list event) :
  forall w, inv w -> random_defined w -> random_defined (run es w).
Proof.
  induction es as [|e es IH]; intros w Hinv Hr; simpl; [done|].
  destruct (handle e w) as [w'|] eqn:He; simpl; [|by apply IH].
  apply IH.
  - pose proof (inv_run [e] w Hinv) as H. simpl in H. by rewrite He in H.
  - by eapply random_defined_handle.
Qed.

End Random_records.

(** With the counter source ([getNewRandomSpicyFood]), no click ever
    throws: after any run of events from the seed, removing or updating
    any id succeeds, and the list renders. *)
Theorem random_source_never_throws (es : list event) (i : Z) :
  let w := run es init_random in
  handleLiClick_remove i w <> None /\ handleLiClick_update i w <> None /\ render w <> None.
Proof.
  simpl.
  pose proof (inv_run es init_random inv_init_random) as Hinv.
  destruct (random_defined_run es init_random inv_init_random) as [_ Hdef].
  { split; [by exists 3|]. repeat constructor; discriminate. }
  pose proof Hinv as [_ _ _ Hwf _]. apply Forall_app in Hwf as [Hwf _].
  assert (Hrec : Forall (is_record (run es init_random)) (collection (run es init_random))).
  { clear -Hwf Hdef. induction Hwf; inversion Hdef; subst;
      constructor; [by apply wf_slot_is_record|auto]. }
  split; [|split].
  - unfold handleLiClick_remove. unfold collection in Hrec.
    destruct (filter_id_neq_Some _ i _ Hrec) as (ys & -> & _). done.
  - unfold handleLiClick_update. unfold collection in Hrec.
    destruct (map_inc_heat_Some i _ _ Hrec) as (w1 & ys & -> & _). done.
  - by apply render_records.
Qed.

(** ** How the handlers compose *)

Section Compose.

Lemma update_some (i : Z) (w : world) :
  Forall (is_record w) (collection w) ->
  exists w', handleLiClick_update i w = Some w' /\
    objs w `prefix_of` objs w' /\
    Forall2 (update_slot w w' i) (collection w) (collection w').
Proof.
  intros Hc.
  destruct (map_inc_heat_Some i (collection w) w Hc) as (w1 & ys & Hm & Hp & Ha & _ & Hr).
  unfold handleLiClick_update. unfold collection in Hm. rewrite Hm.
  eexists. split; [reflexivity|].
  unfold collection, set_foods, set_heap; simpl. rewrite Ha, arr_push.
  split; [done|]. done.
Qed.

Lemma map_inc_heat_none_match (w : world) (i : Z) (xs : list val) :
  Forall (is_record w) xs -> Forall (fun v => get_id w v <> Some i) xs ->
  map_inc_heat w i xs = Some (w, xs).
Proof.
  induction 1 as [|x xs Hx Hxs IH]; simpl; intros Hn; [done|].
  inversion Hn as [|? ? Hxi Hn']; subst.
  unfold is_record in Hx. unfold get_id in Hxi.
  destruct (get_food w x) as [f|]; [|done].
  destruct (Z.eqb_spec (id f) i); [congruence|]. by rewrite IH.
Qed.

Lemma filter_after_update (w w' : world) (i : Z) (xs ys : list val) :
  Forall2 (update_slot w w' i) xs ys -> filter_id_neq w' i ys = filter_id_neq w i xs.
Proof.
  induction 1 as [|x y xs ys (f & Hf & Hs) _ IH]; simpl; [done|].
  unfold get_id at 2. rewrite Hf, IH. unfold get_id.
  destruct (Z.eqb (id f) i) eqn:Hi.
  - rewrite Hs. simpl. by rewrite Hi.
  - destruct Hs as [-> Hy]. rewrite Hy. simpl. by rewrite Hi.
Qed.

End Compose.

(** Clicking a food whose id is in no slot with the updating
    [handleLiClick] allocates no object and publishes, through [setFoods],
    a new array (a fresh location, so not the array [foods] held before)
    with exactly the same elements; the previous array is left as it was. *)
Theorem update_missing_noop (i : Z) (w : world) :
  (foods w < length (arrs w))%nat ->
  Forall (is_record w) (collection w) ->
  Forall (fun v => get_id w v <> Some i) (collection w) ->
  exists w', handleLiClick_update i w = Some w' /\
    foods w' = length (arrs w) /\ foods w' <> foods w /\
    arr w' (foods w) = collection w /\
    collection w' = collection w /\ objs w' = objs w.
Proof.
  intros Hf Hc Hn. unfold handleLiClick_update. unfold collection in Hc, Hn.
  rewrite (map_inc_heat_none_match w i _ Hc Hn).
  eexists. split; [reflexivity|].
  unfold collection, set_foods, set_heap; simpl.
  split; [done|]. split; [lia|].
  rewrite arr_push_old by done. rewrite arr_push. done.
Qed.

Lemma update_missing_noop_witness :
  exists w', handleLiClick_update 999 init_pool = Some w' /\
    foods w' = length (arrs init_pool) /\ foods w' <> foods init_pool /\
    arr w' (foods init_pool) = collection init_pool /\
    collection w' = collection init_pool /\ objs w' = objs init_pool.
Proof.
  apply update_missing_noop.
  - simpl. lia.
  - repeat constructor; unfold is_record; simpl; discriminate.
  - repeat constructor; simpl; discriminate.
Defined.

(** Updating a food and then removing it leaves the same collection as
    removing it straight away: the updated object keeps its id, and every
    other slot is the same reference. *)
Theorem remove_after_update (i : Z) (w : world) :
  Forall (is_record w) (collection w) ->
  collection <$> (handleLiClick_update i w ≫= handleLiClick_remove i) =
  collection <$> handleLiClick_remove i w.
Proof.
  intros Hc. destruct (update_some i w Hc) as (w' & Hu & _ & Hr).
  rewrite Hu. simpl.
  unfold handleLiClick_remove at 1 2.
  change (arr w' (foods w')) with (collection w').
  change (arr w (foods w)) with (collection w).
  rewrite (filter_after_update w w' i _ _ Hr).
  destruct (filter_id_neq w i (collection w)) as [ys|]; [|done].
  simpl. f_equal. unfold collection, set_foods, set_heap; simpl. by rewrite !arr_push.
Qed.

Lemma remove_after_update_witness :
  collection <$> (handleLiClick_update 2 init_pool ≫= handleLiClick_remove 2) =
  collection <$> handleLiClick_remove 2 init_pool.
Proof.
  apply remove_after_update.
  repeat constructor; unfold is_record; simpl; discriminate.
Defined.

Section Round_trip.

Lemma filter_id_neq_drop_last (w : world) (i : Z) (xs : list val) (y : val) (g : food) :
  Forall (fun v => exists f, get_food w v = Some f /\ id f <> i) xs ->
  get_food w y = Some g -> id g = i ->
  filter_id_neq w i (xs ++ [y]) = Some xs.
Proof.
  intros Hxs Hy Hg. induction Hxs as [|x xs (f & Hf & Hfi) _ IH]; simpl.
  - unfold get_id. rewrite Hy, Hg, Z.eqb_refl. done.
  - unfold get_id at 1. rewrite Hf, IH. by destruct (Z.eqb_spec (id f) i).
Qed.

End Round_trip.

(** With the counter source, adding a food and then clicking it with the
    removing [handleLiClick] (its id is the [nextId] it was given) gives
    back the collection as it was, element for element. *)
Theorem add_then_remove_random (index : nat) (w : world) (n : Z) :
  data w = DataRandom n ->
  Forall (is_record w) (collection w) ->
  Forall (fun v => get_id w v <> Some n) (collection w) ->
  exists w', handleLiClick_remove n (handleAddFood index w) = Some w' /\
    collection w' = collection w.
Proof.
  intros Hd Hc Hn.
  destruct (getNewFood index w) as [w1 r] eqn:Hg.
  assert (Hna : no_alias w) by (unfold no_alias; by rewrite Hd).
  rewrite (handleAddFood_unfold index w w1 r Hg).
  destruct (collection_getNewFood index w w1 r Hna Hg) as [Hf1 Hc1].
  change (arr w1 (foods w1)) with (collection w1). rewrite Hc1.
  unfold getNewFood, getNewRandomSpicyFood in Hg. rewrite Hd in Hg.
  destruct (nth index newSpicyFoods_templates _) as [[nm cu] ht].
  simpl in Hg. injection Hg as <- <-.
  set (w1 := set_data (set_heap w (objs w ++ [mkFood n nm cu ht]) (arrs w)) (DataRandom (n + 1))).
  destruct (push_facts w1 (collection w ++ [VRef (length (objs w))]) I) as (Hc' & _ & Ho & _).
  set (W := set_foods (set_heap w1 (objs w1) (arrs w1 ++ [collection w ++ [VRef (length (objs w))]]))
              (length (arrs w1))) in *.
  assert (Hpre : objs w `prefix_of` objs W) by (rewrite Ho; simpl; by apply prefix_app_r).
  unfold handleLiClick_remove. change (arr W (foods W)) with (collection W). rewrite Hc'.
  rewrite (filter_id_neq_drop_last W n (collection w) _ (mkFood n nm cu ht)); try done.
  - eexists. split; [reflexivity|]. unfold collection, set_foods, set_heap; simpl.
    by rewrite arr_push.
  - clear -Hc Hn Hpre. induction Hc as [|x xs Hx _ IH]; [constructor|].
    inversion Hn as [|? ? Hxn Hn']; subst. constructor; [|by apply IH].
    unfold is_record in Hx. destruct (get_food w x) as [f|] eqn:Hf; [|done].
    exists f. split; [by eapply get_food_prefix|].
    unfold get_id in Hxn. rewrite Hf in Hxn. congruence.
  - rewrite (get_food_same_objs W w1) by done. simpl. by rewrite list_lookup_middle.
Qed.

Lemma add_then_remove_random_witness :
  exists w', handleLiClick_remove 3 (handleAddFood 1 init_random) = Some w' /\
    collection w' = collection init_random.
Proof.
  apply (add_then_remove_random 1 init_random 3).
  - reflexivity.
  - repeat constructor; unfold is_record; simpl; discriminate.
  - repeat constructor; simpl; discriminate.
Defined.

(** ** The cuisine filter *)

Lemma filter_cuisine_same_objs (w1 w2 : world) (fb : string) (xs : list val) :
  objs w1 = objs w2 -> filter_cuisine w1 fb xs = filter_cuisine w2 fb xs.
Proof.
  intros H. induction xs as [|x xs IH]; simpl; [done|].
  by rewrite IH, (get_food_same_objs w1 w2).
Qed.

Section Cuisine.

Variable w : world.

(** Holds of a slot referring to a food of cuisine [c]. *)
Definition of_cuisine (c : string) (v : val) : Prop :=
  exists f, get_food w v = Some f /\ cuisine f = c.

Lemma filter_cuisine_spec (fb : string) (xs : list val) :
  fb <> "All"%string -> Forall (is_record w) xs ->
  exists ds, filter_cuisine w fb xs = Some ds /\
    ds `sublist_of` xs /\
    Forall (of_cuisine fb) ds /\
    (forall v, of_cuisine fb v -> count_occ val_eq_dec ds v = count_occ val_eq_dec xs v) /\
    (forall v, is_record w v -> ~ of_cuisine fb v -> count_occ val_eq_dec ds v = 0%nat).
Proof.
  intros Hfb. assert (Hall : String.eqb fb "All" = false) by (by apply String.eqb_neq).
  induction 1 as [|x xs Hx _ (ds & Hds & Hsub & Hof & Hcnt & Hnot)]; simpl.
  - exists []. split; [done|]. split; [constructor|]. split; [constructor|]. done.
  - unfold is_record in Hx. rewrite Hall. destruct (get_food w x) as [f|] eqn:Hf; [|done].
    rewrite Hds. destruct (String.eqb_spec (cuisine f) fb) as [Hc|Hc].
    + exists (x :: ds). split; [done|]. split; [by constructor|].
      split; [constructor; [by exists f|done]|]. split.
      * intros v Hv. simpl. by rewrite Hcnt.
      * intros v Hv Hnv. simpl. destruct (val_eq_dec x v) as [<-|]; [|by apply Hnot].
        exfalso. apply Hnv. by exists f.
    + exists ds. split; [done|]. split; [by constructor|]. split; [done|]. split.
      * intros v (g & Hg & Hgc). simpl. destruct (val_eq_dec x v) as [<-|]; [|by apply Hcnt; exists g].
        exfalso. congruence.
      * intros v Hv Hnv. by apply Hnot.
Qed.

Lemma filters_commute (fb : string) (i : Z) (xs : list val) :
  Forall (is_record w) xs ->
  exists ys ds, filter_id_neq w i xs = Some ys /\ filter_cuisine w fb xs = Some ds /\
    filter_cuisine w fb ys = filter_id_neq w i ds.
Proof.
  induction 1 as [|x xs Hx _ (ys & ds & Hys & Hds & IH)]; simpl; [by exists [], []|].
  unfold is_record in Hx. unfold get_id at 1. destruct (get_food w x) as [f|] eqn:Hf; [|done].
  rewrite Hys, Hds.
  destruct (if String.eqb fb "All" then Some true else Some (String.eqb (cuisine f) fb))
    as [b|] eqn:Hb; [|by destruct (String.eqb fb "All")].
  eexists _, _. split; [reflexivity|]. split; [reflexivity|].
  destruct (Z.eqb (id f) i) eqn:Hi; destruct b; simpl; unfold get_id; rewrite ?Hf, ?Hi, ?Hb.
  - rewrite IH. by destruct (filter_id_neq w i ds).
  - done.
  - rewrite IH. by destruct (filter_id_neq w i ds).
  - rewrite IH. by destruct (filter_id_neq w i ds).
Qed.

End Cuisine.

(** With a cuisine selected ([filterBy] other than ["All"]), [foodsToDisplay]
    shows exactly the foods of that cuisine, in collection order: it is a
    subsequence of the collection, each shown food has that cuisine, each
    food of that cuisine is shown as often as it occurs, and no other food
    is shown. *)
Theorem display_by_cuisine (w : world) :
  filterBy w <> "All"%string -> Forall (is_record w) (collection w) ->
  exists ds, foodsToDisplay w = Some ds /\
    ds `sublist_of` collection w /\
    Forall (of_cuisine w (filterBy w)) ds /\
    (forall v, of_cuisine w (filterBy w) v ->
       count_occ val_eq_dec ds v = count_occ val_eq_dec (collection w) v) /\
    (forall v, is_record w v -> ~ of_cuisine w (filterBy w) v -> count_occ val_eq_dec ds v = 0%nat).
Proof. intros Hfb Hc. by apply filter_cuisine_spec. Qed.

Lemma display_by_cuisine_witness :
  let w := handleFilterChange "Sichuan" init_pool in
  exists ds, foodsToDisplay w = Some ds /\
    ds `sublist_of` collection w /\
    Forall (of_cuisine w (filterBy w)) ds /\
    (forall v, of_cuisine w (filterBy w) v ->
       count_occ val_eq_dec ds v = count_occ val_eq_dec (collection w) v) /\
    (forall v, is_record w v -> ~ of_cuisine w (filterBy w) v -> count_occ val_eq_dec ds v = 0%nat).
Proof.
  apply display_by_cuisine.
  - simpl. discriminate.
  - repeat constructor; unfold is_record; simpl; discriminate.
Defined.

(** Removing a food and then filtering by cuisine shows what filtering
    first and then removing that id from the shown list would: the
    displayed list after the removing [handleLiClick] is the previous
    display without the clicked id. *)
Theorem display_after_remove (i : Z) (w : world) :
  Forall (is_record w) (collection w) ->
  exists w' ds, handleLiClick_remove i w = Some w' /\ foodsToDisplay w = Some ds /\
    foodsToDisplay w' = filter_id_neq w i ds.
Proof.
  intros Hc.
  destruct (filters_commute w (filterBy w) i (collection w) Hc) as (ys & ds & Hys & Hds & Hcomm).
  unfold handleLiClick_remove. unfold collection in Hys. rewrite Hys.
  eexists _, ds. split; [reflexivity|]. split; [done|].
  unfold foodsToDisplay. rewrite <- Hcomm.
  unfold set_foods, set_heap; simpl. rewrite arr_push.
  by apply filter_cuisine_same_objs.
Qed.

Lemma display_after_remove_witness :
  let w := handleFilterChange "American" (run [AddFood 0; AddFood 0; AddFood 0] init_pool) in
  exists w' ds, handleLiClick_remove 5 w = Some w' /\ foodsToDisplay w = Some ds /\
    foodsToDisplay w' = filter_id_neq w 5 ds.
Proof.
  apply display_after_remove.
  vm_compute. repeat constructor; unfold is_record; vm_compute; discriminate.
Defined.

(** ** Repeated adds from the pool *)

Section Pool_adds.

Variable p : nat.

Lemma pool_add_step (index : nat) (w : world) :
  data w = DataPool p -> p <> foods w -> (p < length (arrs w))%nat ->
  let w' := handleAddFood index w in
  data w' = DataPool p /\ foods w' = length (arrs w) /\
  length (arrs w') = S (length (arrs w)) /\
  collection w' = collection w ++ [default VUndef (head (arr w p))] /\
  arr w' p = tail (arr w p) /\ objs w' = objs w.
Proof.
  intros Hd Hp Hlt. unfold handleAddFood, getNewFood. rewrite Hd.
  unfold getNewSpicyFood. destruct (arr w p) as [|x rest] eqn:HP.
  - destruct w as [os as_ f fb d c]; simpl in *. unfold collection, set_foods, set_heap; simpl.
    rewrite arr_push, arr_push_old by done. rewrite length_app; simpl.
    split; [done|]. split; [done|]. split; [lia|]. split; [done|].
    split; [|done]. unfold arr in HP; simpl in HP. by rewrite HP.
  - unfold collection, set_foods, set_heap; simpl.
    rewrite arr_push, arr_push_old by (by rewrite length_insert).
    rewrite length_app, length_insert; simpl.
    split; [done|]. split; [by rewrite ?length_insert|]. split; [lia|]. split.
    + unfold arr; simpl. by rewrite list_lookup_insert_ne.
    + split; [|done]. by rewrite list_lookup_insert_eq.
Qed.

End Pool_adds.

Lemma pool_adds_run (idxs : list nat) (w : world) (p : nat) :
  data w = DataPool p -> p <> foods w -> (p < length (arrs w))%nat ->
  let w' := run (map AddFood idxs) w in
  collection w' = collection w ++ take (length idxs) (arr w p) ++
                  replicate (length idxs - length (arr w p)) VUndef /\
  arr w' p = drop (length idxs) (arr w p) /\ objs w' = objs w /\ data w' = DataPool p.
Proof.
  revert w. induction idxs as [|index idxs IH]; intros w Hd Hp Hlt; simpl.
  - by rewrite app_nil_r.
  - destruct (pool_add_step p index w Hd Hp Hlt) as (Hd1 & Hf1 & Hl1 & Hc1 & Ha1 & Ho1).
    destruct (IH (handleAddFood index w)) as (Hc & Ha & Ho & Hd'); [done|lia|lia|].
    rewrite Hc, Ha, Ho, Hd', Hc1, Ha1, Ho1. split.
    + rewrite <- app_assoc. f_equal. destruct (arr w p) as [|x rest]; simpl; [|done].
      by rewrite take_nil, Nat.sub_0_r.
    + split; [|done]. destruct (arr w p); simpl; by rewrite ?drop_nil.
Qed.

Lemma render_undef (w : world) :
  In VUndef (collection w) -> render w = None.
Proof.
  intros Hin. unfold render, foodsToDisplay. unfold collection in Hin.
  pose proof (filter_cuisine_In_undef w (filterBy w) _ Hin) as H.
  destruct (filter_cuisine _ _ _) as [ys|]; [|done].
  by apply render_rows_undef.
Qed.

(** With the pool version of the data module, solution "Add New Food"
    clicks append to the collection the pool's records in order; the pool
    loses one record per click and no object is allocated or changed.  The
    click after the pool runs dry appends [undefined], and from a collection
    and pool of records the render throws exactly then: before it every
    render succeeds.  That throwing render unmounts the component, so no
    later click happens: the runs considered stop there. *)
Theorem pool_adds (idxs : list nat) (w : world) (p : nat) :
  data w = DataPool p -> p <> foods w -> (p < length (arrs w))%nat ->
  (length idxs <= S (length (arr w p)))%nat ->
  let w' := run (map AddFood idxs) w in
  collection w' = collection w ++ take (length idxs) (arr w p) ++
                  replicate (length idxs - length (arr w p)) VUndef /\
  arr w' p = drop (length idxs) (arr w p) /\ objs w' = objs w /\ data w' = DataPool p /\
  (Forall (is_record w) (collection w ++ arr w p) ->
   (render w' = None <-> length idxs = S (length (arr w p)))).
Proof.
  intros Hd Hp Hlt Hk w'.
  destruct (pool_adds_run idxs w p Hd Hp Hlt) as (Hc & Ha & Ho & Hd').
  split; [done|]. split; [done|]. split; [done|]. split; [done|].
  intros Hr. apply Forall_app in Hr as [HrC HrP].
  destruct (decide (length idxs = S (length (arr w p)))) as [Heq|Hne].
  - split; [done|]. intros _. apply render_undef. fold w' in Hc. rewrite Hc, Heq.
    replace (S (length (arr w p)) - length (arr w p))%nat with 1%nat by lia.
    apply in_or_app. right. apply in_or_app. right. by left.
  - split; [|done]. intros Hnone. exfalso. revert Hnone. apply render_records.
    fold w' in Hc, Ho. rewrite Hc.
    replace (length idxs - length (arr w p))%nat with 0%nat by lia. simpl. rewrite app_nil_r.
    assert (Hrec : forall v, is_record w v -> is_record w' v).
    { intros v. unfold is_record. by rewrite (get_food_same_objs w' w). }
    apply Forall_app. split; [|apply Forall_take];
      [eapply Forall_impl; [exact HrC|exact Hrec]|eapply Forall_impl; [exact HrP|exact Hrec]].
Qed.

Lemma pool_adds_witness :
  let w := handleFilterChange "Thai" init_pool in
  let w' := run (map AddFood [0; 2; 1; 0]%nat) w in
  collection w' = collection w ++ take 4%nat (arr w 1%nat) ++ replicate (4 - length (arr w 1%nat))%nat VUndef /\
  arr w' 1%nat = drop 4%nat (arr w 1%nat) /\ objs w' = objs w /\ data w' = DataPool 1%nat /\
  Forall (is_record w) (collection w ++ arr w 1%nat) /\
  (render w' = None <-> 4%nat = S (length (arr w 1%nat))).
Proof.
  destruct (pool_adds [0; 2; 1; 0]%nat (handleFilterChange "Thai" init_pool) 1%nat)
    as (Hc & Ha & Ho & Hd & Hr); [reflexivity | simpl; lia | simpl; lia | simpl; lia |].
  cbv zeta.
  assert (Hrec : Forall (is_record (handleFilterChange "Thai" init_pool))
                   (collection (handleFilterChange "Thai" init_pool) ++
                    arr (handleFilterChange "Thai" init_pool) 1%nat)).
  { repeat constructor; unfold is_record; simpl; discriminate. }
  split; [exact Hc|]. split; [exact Ha|]. split; [exact Ho|]. split; [exact Hd|].
  split; [exact Hrec|]. exact (Hr Hrec).
Defined.
